(** * A model of [brown] from [src/sde/sde.py]

    [brown(T, N, N_ens=1)] draws an [(N_ens, N)] matrix of Gaussian
    increments [dW] from numpy's global random source and returns it
    together with the path matrix [W], whose first column is zero and whose
    other columns are the row-wise cumulative sums of [dW].

    Modelling choices:
    - Python floats are modelled by exact rationals [Q]; numeric equality
      [==] of Python is [Qeq].  NaN is not represented.
    - numpy's process-wide random state is threaded explicitly: a state is
      the stream of standard normal draws still to come ([rng]), and a
      computation is a state-and-exception monad [M].
    - Python exceptions raised on the way are the constructors of [exn]. *)

From Stdlib Require Import QArith ZArith List Lia.
Import ListNotations.

Open Scope Q_scope.

(** ** Exceptions, random state and the state-and-exception monad *)

Inductive exn : Type :=
| ZeroDivisionError
| ValueError.

Inductive result (A : Type) : Type :=
| Ok : A -> result A
| Err : exn -> result A.

Arguments Ok {A} _.
Arguments Err {A} _.

(** The state of [numpy.random]: the standard normal draws it will
    produce next, in order. *)
Definition rng : Type := nat -> Q.

(** The state after [n] draws. *)
Definition advance (g : rng) (n : nat) : rng := fun i => g (n + i)%nat.

Definition M (A : Type) : Type := rng -> result A * rng.

Definition ret {A : Type} (a : A) : M A := fun g => (Ok a, g).

Definition raise {A : Type} (e : exn) : M A := fun g => (Err e, g).

Definition bind {A B : Type} (m : M A) (k : A -> M B) : M B :=
  fun g =>
    match m g with
    | (Ok a, g') => k a g'
    | (Err e, g') => (Err e, g')
    end.

Notation "'let*' x ':=' m 'in' k" := (bind m (fun x => k))
  (at level 200, x name, m at level 100, k at level 200).

(** ** numpy operations *)

Definition matrix : Type := list (list Q).

(** The square root of a non-negative rational [a/b], rounded down to a
    multiple of [1/(b*K)]: [sqrt (a*b*K*K) / (b*K)] with the integer
    square root.  Its relative error is below [1/K] (lemma
    [sqrt_rounded_spec]). *)
Definition sqrt_rounded (K : positive) (q : Q) : Q :=
  Qmake (Z.sqrt (Qnum q * Zpos (Qden q) * Zpos K * Zpos K)) (Qden q * K).

(** The 53-bit significand of a double. *)
Definition sqrt_prec : positive := Pos.pow 2 53.

(** [np.sqrt] on a non-negative float: the square root to 53 bits of
    relative precision (IEEE rounds to nearest, this model rounds down;
    both are within one unit of the last place).  On [0] and on squares
    such as [1/4] it is exact.  numpy returns NaN on negative arguments,
    which this model cannot represent (it gives [0] there); every theorem
    that depends on the value of the scale assumes [T >= 0]. *)
Definition np_sqrt (q : Q) : Q := sqrt_rounded sqrt_prec q.

(** [np.zeros((r, c))] for non-negative [r] and [c]. *)
Definition np_zeros (r c : Z) : matrix :=
  repeat (repeat 0 (Z.to_nat c)) (Z.to_nat r).

(** [numpy.random.normal(loc, scale, (r, c))] of the legacy global
    generator: every entry is [loc + scale * gauss()], filled in row-major
    order; negative dimensions raise [ValueError] before any draw.  (The
    [scale < 0] check of numpy never fires here, as the scale always comes
    from [np.sqrt].) *)
Definition np_normal (loc scale : Q) (r c : Z) : M matrix :=
  fun g =>
    if (r <? 0)%Z || (c <? 0)%Z then (Err ValueError, g)
    else
      let rows := Z.to_nat r in
      let cols := Z.to_nat c in
      (Ok (map (fun i => map (fun j => loc + scale * g (i * cols + j)%nat)
                            (seq 0 cols))
               (seq 0 rows)),
       advance g (rows * cols)).

(** [np.cumsum] of one row: [out[0] = a[0]], [out[j] = out[j-1] + a[j]]. *)
Fixpoint cumsum_from (acc : Q) (l : list Q) : list Q :=
  match l with
  | [] => []
  | x :: t => (acc + x) :: cumsum_from (acc + x) t
  end.

Definition cumsum (l : list Q) : list Q :=
  match l with
  | [] => []
  | x :: t => x :: cumsum_from x t
  end.

(** [np.cumsum(A, axis=1)]. *)
Definition cumsum_axis1 (A : matrix) : matrix := map cumsum A.

(** The slice assignment [W[:, 1:] = C]: each row keeps its first entry
    and takes the row of [C] after it; shapes that do not match raise
    [ValueError] (numpy's broadcasting of a one-row [C] is not modelled). *)
Definition set_cols_from1 (W C : matrix) : M matrix :=
  if (length C =? length W)%nat
     && forallb (fun p => (length (snd p) =? pred (length (fst p)))%nat)
                (combine W C)
  then ret (map (fun p => firstn 1 (fst p) ++ snd p) (combine W C))
  else raise ValueError.

(** ** [brown] *)

Section Brown.

(** The sampler [random.normal] that [brown] looks up at call time. *)
Variable normal : Q -> Q -> Z -> Z -> M matrix.

Definition brown_with (T : Q) (N N_ens : Z) : M (matrix * matrix) :=
  if (N =? 0)%Z then raise ZeroDivisionError
  else
    let dt := T / inject_Z N in
    let sqrt_dt := np_sqrt dt in
    let* dW := normal 0 sqrt_dt N_ens N in
    let W := np_zeros N_ens (N + 1) in
    let* W := set_cols_from1 W (cumsum_axis1 dW) in
    ret (W, dW).

End Brown.

(** [brown] with numpy's own [random.normal]. *)
Definition brown (T : Q) (N N_ens : Z) : M (matrix * matrix) :=
  brown_with np_normal T N N_ens.

(** A call [brown(T, N)] or [brown(T, N, N_ens)]: [None] is the omitted
    keyword argument, whose default is [1]. *)
Definition brown_call (T : Q) (N : Z) (N_ens : option Z) : M (matrix * matrix) :=
  brown T N (match N_ens with Some n => n | None => 1%Z end).

(** ** Reading results *)

(** [M[k, j]], [None] out of range. *)
Definition at_ (A : matrix) (k j : nat) : option Q :=
  match nth_error A k with
  | Some row => nth_error row j
  | None => None
  end.

(** [A.shape == (r, c)]. *)
Definition has_shape (A : matrix) (r c : Z) : Prop :=
  Z.of_nat (length A) = r /\ Forall (fun row => Z.of_nat (length row) = c) A.

(** The matrix [np_normal 0 scale (rows, cols)] returns. *)
Definition draws (scale : Q) (rows cols : nat) (g : rng) : matrix :=
  map (fun i => map (fun j => 0 + scale * g (i * cols + j)%nat) (seq 0 cols))
      (seq 0 rows).

(** The random source stubbed to return a fixed matrix of increments,
    whatever it is asked for, without consuming any draw. *)
Definition stub_normal (dW : matrix) : Q -> Q -> Z -> Z -> M matrix :=
  fun _ _ _ _ => ret dW.

Definition g_seq : rng := fun i => inject_Z (Z.of_nat i).

(** ** The driver ([if __name__ == "__main__"]) *)

(** [np.linspace(start, stop, num)] (with [endpoint=True]):
    [arange(num) * step + start] with [step = (stop - start) / (num - 1)],
    whose last entry is then set to [stop]; [[start]] when [num = 1]. *)
Definition np_linspace (start stop : Q) (num : Z) : list Q :=
  match Z.to_nat num with
  | O => []
  | S O => [start]
  | S (S _ as n) =>
      let step := (stop - start) / inject_Z (Z.of_nat n) in
      map (fun i => inject_Z (Z.of_nat i) * step + start) (seq 0 n) ++ [stop]
  end.

(** [plt.plot(x, y)]: matplotlib raises [ValueError] when [x] and [y] have
    different lengths; the drawing itself is not modelled, the call
    records the curve. *)
Definition plt_plot (x y : list Q) : M (list Q * list Q) :=
  if (length x =? length y)%nat then ret (x, y) else raise ValueError.

(** [for k in range(N_ens): plt.plot(t, W_ens[k, :])]. *)
Fixpoint plot_rows (t : list Q) (rows : matrix) : M (list (list Q * list Q)) :=
  match rows with
  | [] => ret []
  | r :: rs =>
      let* c := plt_plot t r in
      let* cs := plot_rows t rs in
      ret (c :: cs)
  end.

(** [np.sum] of a vector (exact arithmetic: summation order is
    irrelevant). *)
Definition qsum (l : list Q) : Q := fold_right Qplus 0 l.

(** [np.sum(W_ens[:, -1]**2) / N_ens]: the sum is a numpy float, so a
    division by [N_ens = 0] gives NaN (here [None]) instead of raising. *)
Definition terminal_mean_square (W : matrix) (N_ens : Z) : option Q :=
  let s := qsum (map (fun row => last row 0 * last row 0) W) in
  if (N_ens =? 0)%Z then None else Some (s / inject_Z N_ens).

(** The body of the script, with its constants [T = 1.], [N = 500],
    [N_ens = 100] as parameters; [g] is the random state after
    [random.seed(0)].  It returns the plotted curves and the printed
    value.  The time grid is [np.linspace(0., 1., N+1)]: its end point is
    the literal [1.], not [T]. *)
Definition main_body (T : Q) (N N_ens : Z) : M (list (list Q * list Q) * option Q) :=
  let t := np_linspace 0 1 (N + 1) in
  let* p := brown T N N_ens in
  let (W_ens, dW_ens) := p in
  let* curves := plot_rows t W_ens in
  ret (curves, terminal_mean_square W_ens N_ens).

Definition main : M (list (list Q * list Q) * option Q) := main_body 1 500 100.

(** ** Lemmas on the numpy operations *)

Lemma sqrt_lower (P K x : Z) :
  (1 <= P)%Z -> (1 <= K)%Z -> (0 <= x)%Z ->
  (P * K * K < (x + 1) * (x + 1))%Z -> (P * (K - 1) * (K - 1) < x * x)%Z.
Proof.
  intros HP HK Hx Hlt.
  destruct (Z.lt_ge_cases (P * (K - 1) * (K - 1)) (x * x)) as [H|H]; [exact H|].
  exfalso.
  assert (Hx' : (x <= P * (K - 1))%Z).
  { destruct (Z.le_gt_cases x (P * (K - 1))) as [H'|H']; [exact H'|].
    exfalso.
    assert (Hy : (0 <= P * (K - 1))%Z) by nia.
    assert (H1 : (P * (K - 1) * (P * (K - 1)) < x * x)%Z)
      by (apply Z.mul_lt_mono_nonneg; lia).
    assert (H2 : (P * (K - 1) * (K - 1) <= P * (K - 1) * (P * (K - 1)))%Z)
      by (apply Z.mul_le_mono_nonneg_l; nia).
    lia. }
  nia.
Qed.

Lemma sqrt_rounded_spec (K : positive) (q : Q) :
  0 < q ->
  0 <= sqrt_rounded K q /\
  sqrt_rounded K q * sqrt_rounded K q <= q /\
  ((Zpos K - 1) # K) * ((Zpos K - 1) # K) * q < sqrt_rounded K q * sqrt_rounded K q.
Proof.
  remember (Z.pos K - 1)%Z as k1 eqn:Hk1.
  destruct q as [a b]; unfold Qlt; simpl; intros Ha.
  rewrite Z.mul_1_r in Ha.
  unfold sqrt_rounded; simpl.
  set (m := Z.sqrt (a * Z.pos b * Z.pos K * Z.pos K)).
  assert (Hm0 : (0 <= m)%Z) by apply Z.sqrt_nonneg.
  destruct (Z.sqrt_spec (a * Z.pos b * Z.pos K * Z.pos K)) as [Hlo Hhi]; [nia|].
  fold m in Hlo, Hhi; rewrite <- Z.add_1_r in Hhi.
  unfold Qle, Qlt; simpl; rewrite ?Pos2Z.inj_mul.
  repeat split.
  - lia.
  - nia.
  - assert (L : (a * Z.pos b * (Z.pos K - 1) * (Z.pos K - 1) < m * m)%Z)
      by (subst k1; apply sqrt_lower; nia).
    assert (Hp : (0 < Z.pos K * Z.pos K * Z.pos b)%Z) by lia.
    apply (Z.mul_lt_mono_pos_r _ _ _ Hp) in L.
    nia.
Qed.


Lemma cumsum_from_length (acc : Q) (l : list Q) :
  length (cumsum_from acc l) = length l.
Proof.
  revert acc; induction l as [|x t IH]; intros acc; simpl; auto.
Qed.

Lemma cumsum_length (l : list Q) : length (cumsum l) = length l.
Proof.
  destruct l as [|x t]; simpl; [reflexivity|].
  now rewrite cumsum_from_length.
Qed.

(** Entry [i] of [cumsum_from acc t] is the entry before it (with [acc]
    in front) plus [t[i]]. *)
Lemma cumsum_from_step (t : list Q) (acc : Q) (i : nat) :
  (i < length t)%nat ->
  exists b c, nth_error (acc :: cumsum_from acc t) i = Some b /\
              nth_error t i = Some c /\
              nth_error (cumsum_from acc t) i = Some (b + c).
Proof.
  revert acc i; induction t as [|y t IH]; intros acc i Hi; simpl in Hi.
  - lia.
  - destruct i as [|i].
    + exists acc, y; simpl; auto.
    + destruct (IH (acc + y) i) as (b & c & Hb & Hc & Ha); [lia|].
      exists b, c; simpl in *; auto.
Qed.

(** The cumulative-sum identity on one row of [W]. *)
Lemma row_cumsum_identity (r : list Q) (j : nat) :
  (1 <= j <= length r)%nat ->
  exists a b c, nth_error (0 :: cumsum r) j = Some a /\
                nth_error (0 :: cumsum r) (j - 1) = Some b /\
                nth_error r (j - 1) = Some c /\ a == b + c.
Proof.
  intros Hj.
  destruct r as [|x t]; simpl in Hj; [lia|].
  destruct j as [|[|j]]; [lia| |].
  - exists x, 0, x; simpl; repeat split.
    all: try now rewrite Qplus_0_l.
  - destruct (cumsum_from_step t x j) as (b & c & Hb & Hc & Ha); [lia|].
    exists (b + c), b, c; simpl in *; repeat split; auto.
    all: try reflexivity.
Qed.

Lemma forallb_zeros (C : matrix) (n : nat) :
  Forall (fun c => length c = n) C ->
  forallb (fun p => (length (snd p) =? pred (length (fst p)))%nat)
          (combine (repeat (repeat 0 (S n)) (length C)) C) = true.
Proof.
  induction 1 as [|c C Hc _ IH]; simpl; [reflexivity|].
  rewrite repeat_length, Hc, Nat.eqb_refl; exact IH.
Qed.

Lemma map_zeros (C : matrix) (n : nat) :
  map (fun p => firstn 1 (fst p) ++ snd p)
      (combine (repeat (repeat 0 (S n)) (length C)) C) = map (cons 0) C.
Proof.
  induction C as [|c C IH]; simpl; [reflexivity|].
  rewrite <- IH; reflexivity.
Qed.

(** Assigning [C] to [W[:, 1:]] when [W] is [np.zeros] of the right
    shape puts a zero in front of every row of [C]. *)
Lemma set_cols_from1_zeros (C : matrix) (n : nat) :
  Forall (fun c => length c = n) C ->
  set_cols_from1 (repeat (repeat 0 (S n)) (length C)) C = ret (map (cons 0) C).
Proof.
  intros HC; unfold set_cols_from1.
  rewrite repeat_length, Nat.eqb_refl, forallb_zeros, map_zeros by exact HC.
  reflexivity.
Qed.

Lemma draws_length (s : Q) (rows cols : nat) (g : rng) :
  length (draws s rows cols g) = rows.
Proof. unfold draws; now rewrite length_map, length_seq. Qed.

Lemma draws_rows (s : Q) (rows cols : nat) (g : rng) :
  Forall (fun r => length r = cols) (draws s rows cols g).
Proof.
  unfold draws; apply Forall_map, Forall_forall; intros i _.
  now rewrite length_map, length_seq.
Qed.

Lemma draws_row (s : Q) (rows cols : nat) (g : rng) (k : nat) :
  (k < rows)%nat ->
  nth_error (draws s rows cols g) k =
  Some (map (fun j => 0 + s * g (k * cols + j)%nat) (seq 0 cols)).
Proof.
  intros Hk; unfold draws.
  rewrite nth_error_map, nth_error_seq.
  destruct (Nat.ltb_spec k rows); [reflexivity | lia].
Qed.

Lemma cumsum_axis1_rows (C : matrix) (n : nat) :
  Forall (fun c => length c = n) C ->
  Forall (fun c => length c = n) (cumsum_axis1 C).
Proof.
  intros HC; unfold cumsum_axis1; apply Forall_map.
  eapply Forall_impl; [|exact HC]; intros c Hc; simpl.
  now rewrite cumsum_length.
Qed.

(** [brown] on a positive step count and a non-negative ensemble size:
    [dW] is the block of the next [N_ens * N] draws scaled by
    [sqrt(T / N)], [W] is [dW]'s row-wise cumulative sums with a zero in
    front, and exactly [N_ens * N] draws are consumed. *)
Lemma brown_eq (T : Q) (N N_ens : Z) (g : rng) :
  (0 < N)%Z -> (0 <= N_ens)%Z ->
  brown T N N_ens g =
  (Ok (map (cons 0) (cumsum_axis1
         (draws (np_sqrt (T / inject_Z N)) (Z.to_nat N_ens) (Z.to_nat N) g)),
       draws (np_sqrt (T / inject_Z N)) (Z.to_nat N_ens) (Z.to_nat N) g),
   advance g (Z.to_nat N_ens * Z.to_nat N)).
Proof.
  intros HN HNe.
  unfold brown, brown_with.
  replace (N =? 0)%Z with false by (symmetry; apply Z.eqb_neq; lia).
  unfold bind at 1, np_normal.
  replace ((N_ens <? 0)%Z || (N <? 0)%Z) with false
    by (symmetry; apply orb_false_iff; split; apply Z.ltb_ge; lia).
  fold (draws (np_sqrt (T / inject_Z N)) (Z.to_nat N_ens) (Z.to_nat N) g).
  set (D := draws _ _ _ g).
  unfold np_zeros.
  replace (Z.to_nat (N + 1)) with (S (Z.to_nat N)) by lia.
  replace (Z.to_nat N_ens) with (length (cumsum_axis1 D)) at 1
    by (unfold cumsum_axis1, D; now rewrite length_map, draws_length).
  rewrite set_cols_from1_zeros
    by (apply cumsum_axis1_rows, draws_rows).
  reflexivity.
Qed.

Lemma at_W (D : matrix) (k j : nat) (row : list Q) :
  nth_error D k = Some row ->
  at_ (map (cons 0) (cumsum_axis1 D)) k j = nth_error (0 :: cumsum row) j.
Proof.
  intros Hk; unfold at_, cumsum_axis1.
  now rewrite !nth_error_map, Hk.
Qed.

Lemma at_dW (D : matrix) (k j : nat) (row : list Q) :
  nth_error D k = Some row -> at_ D k j = nth_error row j.
Proof. intros Hk; unfold at_; now rewrite Hk. Qed.

Lemma shape_W (s : Q) (N N_ens : Z) (g : rng) :
  (0 <= N)%Z -> (0 <= N_ens)%Z ->
  has_shape (map (cons 0) (cumsum_axis1 (draws s (Z.to_nat N_ens) (Z.to_nat N) g)))
            N_ens (N + 1).
Proof.
  intros HN HNe; split.
  - unfold cumsum_axis1; rewrite !length_map, draws_length; lia.
  - apply Forall_map.
    eapply Forall_impl; [|apply (cumsum_axis1_rows _ (Z.to_nat N)), draws_rows].
    intros r Hr; simpl; rewrite Hr; lia.
Qed.

Lemma shape_dW (s : Q) (N N_ens : Z) (g : rng) :
  (0 <= N)%Z -> (0 <= N_ens)%Z ->
  has_shape (draws s (Z.to_nat N_ens) (Z.to_nat N) g) N_ens N.
Proof.
  intros HN HNe; split.
  - rewrite draws_length; lia.
  - eapply Forall_impl; [|apply draws_rows].
    intros r Hr; simpl; rewrite Hr; lia.
Qed.

(** ** The claims *)

(** C1: for valid inputs, every row [k] and every step [j] in [1, N],
    [W[k, j] == W[k, j-1] + dW[k, j-1]]. *)
Theorem brown_cumsum_identity (T : Q) (N N_ens : Z) (g : rng) :
  0 < T -> (0 < N)%Z -> (0 < N_ens)%Z ->
  exists W dW g', brown T N N_ens g = (Ok (W, dW), g') /\
    forall k j, (k < Z.to_nat N_ens)%nat -> (1 <= j <= Z.to_nat N)%nat ->
      exists a b c, at_ W k j = Some a /\ at_ W k (j - 1) = Some b /\
                    at_ dW k (j - 1) = Some c /\ a == b + c.
Proof.
  intros _ HN HNe.
  do 3 eexists; split; [apply brown_eq; lia|].
  intros k j Hk Hj.
  pose proof (draws_row (np_sqrt (T / inject_Z N)) _ (Z.to_nat N) g k Hk) as Hrow.
  rewrite (at_W _ _ _ _ Hrow), (at_W _ _ _ _ Hrow), (at_dW _ _ _ _ Hrow).
  apply row_cumsum_identity.
  rewrite length_map, length_seq; exact Hj.
Qed.

Lemma brown_cumsum_identity_witness :
  0 < 1 /\ (0 < 3)%Z /\ (0 < 2)%Z /\
  exists W dW g', brown 1 3 2 g_seq = (Ok (W, dW), g') /\
    forall k j, (k < Z.to_nat 2)%nat -> (1 <= j <= Z.to_nat 3)%nat ->
      exists a b c, at_ W k j = Some a /\ at_ W k (j - 1) = Some b /\
                    at_ dW k (j - 1) = Some c /\ a == b + c.
Proof.
  refine (conj _ (conj _ (conj _ _))); [reflexivity | reflexivity | reflexivity |].
  apply brown_cumsum_identity; reflexivity.
Defined.

(** C2: for valid inputs [brown] returns [W] of shape [(N_ens, N+1)] and
    [dW] of shape [(N_ens, N)]. *)
Theorem brown_shapes (T : Q) (N N_ens : Z) (g : rng) :
  0 < T -> (0 < N)%Z -> (0 < N_ens)%Z ->
  exists W dW g', brown T N N_ens g = (Ok (W, dW), g') /\
    has_shape W N_ens (N + 1) /\ has_shape dW N_ens N.
Proof.
  intros _ HN HNe.
  do 3 eexists; split; [apply brown_eq; lia|].
  split; [apply shape_W | apply shape_dW]; lia.
Qed.

Lemma brown_shapes_witness :
  0 < 1 /\ (0 < 3)%Z /\ (0 < 2)%Z /\
  exists W dW g', brown 1 3 2 g_seq = (Ok (W, dW), g') /\
    has_shape W 2 (3 + 1) /\ has_shape dW 2 3.
Proof.
  refine (conj _ (conj _ (conj _ _))); [reflexivity | reflexivity | reflexivity |].
  apply brown_shapes; reflexivity.
Defined.

(** C3: for valid inputs, [W[k, 0] == 0] for every row [k]. *)
Theorem brown_initial_zero (T : Q) (N N_ens : Z) (g : rng) :
  0 < T -> (0 < N)%Z -> (0 < N_ens)%Z ->
  exists W dW g', brown T N N_ens g = (Ok (W, dW), g') /\
    forall k, (k < Z.to_nat N_ens)%nat -> at_ W k 0 = Some 0.
Proof.
  intros _ HN HNe.
  do 3 eexists; split; [apply brown_eq; lia|].
  intros k Hk.
  pose proof (draws_row (np_sqrt (T / inject_Z N)) _ (Z.to_nat N) g k Hk) as Hrow.
  now rewrite (at_W _ _ _ _ Hrow).
Qed.

Lemma brown_initial_zero_witness :
  0 < 1 /\ (0 < 3)%Z /\ (0 < 2)%Z /\
  exists W dW g', brown 1 3 2 g_seq = (Ok (W, dW), g') /\
    forall k, (k < Z.to_nat 2)%nat -> at_ W k 0 = Some 0.
Proof.
  refine (conj _ (conj _ (conj _ _))); [reflexivity | reflexivity | reflexivity |].
  apply brown_initial_zero; reflexivity.
Defined.

(** C4 refuted: [brown(T=0.0, N=10, N_ens=1)] and
    [brown(T=1.0, N=10, N_ens=0)] return normally instead of failing. *)
Lemma brown_no_validation_cex :
  (exists W dW g', brown 0 10 1 g_seq = (Ok (W, dW), g')) /\
  (exists W dW g', brown 1 10 0 g_seq = (Ok (W, dW), g')).
Proof. split; do 3 eexists; apply brown_eq; lia. Qed.

(** C4 as amended: [brown] validates none of its arguments.  With [N = 0]
    it raises [ZeroDivisionError]; with [N <> 0] and [N < 0] or
    [N_ens < 0] it raises [ValueError]; in both cases the random state is
    left untouched (no draw happens).  With [T = 0] (and [N, N_ens > 0]) or
    with [N_ens = 0] (and [N > 0]) it returns normally. *)
Theorem brown_argument_errors :
  (forall T N_ens g, brown T 0 N_ens g = (Err ZeroDivisionError, g)) /\
  (forall T N N_ens g, N <> 0%Z -> (N < 0 \/ N_ens < 0)%Z ->
     brown T N N_ens g = (Err ValueError, g)) /\
  (forall N N_ens g, (0 < N)%Z -> (0 < N_ens)%Z ->
     exists W dW g', brown 0 N N_ens g = (Ok (W, dW), g')) /\
  (forall T N g, (0 < N)%Z ->
     exists W dW g', brown T N 0 g = (Ok (W, dW), g')).
Proof.
  refine (conj _ (conj _ (conj _ _))).
  - intros; reflexivity.
  - intros T N N_ens g HN Hneg.
    unfold brown, brown_with.
    replace (N =? 0)%Z with false by (symmetry; apply Z.eqb_neq; exact HN).
    unfold bind, np_normal.
    replace ((N_ens <? 0)%Z || (N <? 0)%Z) with true
      by (symmetry; apply orb_true_iff; destruct Hneg;
          [right | left]; apply Z.ltb_lt; exact H).
    reflexivity.
  - intros N N_ens g HN HNe; do 3 eexists; apply brown_eq; lia.
  - intros T N g HN; do 3 eexists; apply brown_eq; lia.
Qed.

(** C5: with the random source stubbed to return the increments
    [[0.1, -0.2, 0.3, 0.05]], [brown(T=1.0, N=4, N_ens=1)] returns
    [W = [0, 0.1, -0.1, 0.2, 0.25]]. *)
Theorem brown_stub_scenario (g : rng) :
  exists W dW g',
    brown_with (stub_normal [[0.1; -0.2; 0.3; 0.05]]) 1 4 1 g = (Ok (W, dW), g') /\
    Forall2 (Forall2 Qeq) W [[0; 0.1; -0.1; 0.2; 0.25]].
Proof.
  do 3 eexists; split; [reflexivity|].
  repeat constructor.
Qed.

(** C6: with [dt = T / N], the scale [sd] passed to the sampler is the
    square root of [dt] to 53 bits ([sd >= 0] and
    [((2^53 - 1) / 2^53)^2 * dt < sd * sd <= dt]), and each entry
    [dW[k, j]] is [0 + sd * z] for the next unit-normal draw [z] of the
    random source, the draws being taken in row-major order: a normal
    draw with mean 0 and standard deviation [sd]. *)
Theorem brown_increments_scaled (T : Q) (N N_ens : Z) (g : rng) :
  0 < T -> (0 < N)%Z -> (0 < N_ens)%Z ->
  exists W dW g' sd, brown T N N_ens g = (Ok (W, dW), g') /\
    sd = np_sqrt (T / inject_Z N) /\
    0 <= sd /\ sd * sd <= T / inject_Z N /\
    ((Zpos sqrt_prec - 1) # sqrt_prec) * ((Zpos sqrt_prec - 1) # sqrt_prec)
      * (T / inject_Z N) < sd * sd /\
    forall k j, (k < Z.to_nat N_ens)%nat -> (j < Z.to_nat N)%nat ->
      at_ dW k j = Some (0 + sd * g (k * Z.to_nat N + j)%nat).
Proof.
  intros HT HN HNe.
  assert (Hdt : 0 < T / inject_Z N).
  { unfold Qdiv; apply Qmult_lt_0_compat; [exact HT|].
    apply Qinv_lt_0_compat; unfold Qlt; simpl; lia. }
  destruct (sqrt_rounded_spec sqrt_prec _ Hdt) as (H0 & Hhi & Hlo).
  do 4 eexists; split; [apply brown_eq; lia|].
  split; [reflexivity|].
  split; [exact H0|]; split; [exact Hhi|]; split; [exact Hlo|].
  intros k j Hk Hj.
  rewrite (at_dW _ _ _ _ (draws_row _ _ _ g k Hk)).
  rewrite nth_error_map, nth_error_seq.
  destruct (Nat.ltb_spec j (Z.to_nat N)); [reflexivity | lia].
Qed.

Lemma brown_increments_scaled_witness :
  0 < 1 /\ (0 < 500)%Z /\ (0 < 2)%Z /\
  exists W dW g' sd, brown 1 500 2 g_seq = (Ok (W, dW), g') /\
    sd = np_sqrt (1 / inject_Z 500) /\
    0 <= sd /\ sd * sd <= 1 / inject_Z 500 /\
    ((Zpos sqrt_prec - 1) # sqrt_prec) * ((Zpos sqrt_prec - 1) # sqrt_prec)
      * (1 / inject_Z 500) < sd * sd /\
    forall k j, (k < Z.to_nat 2)%nat -> (j < Z.to_nat 500)%nat ->
      at_ dW k j = Some (0 + sd * g_seq (k * Z.to_nat 500 + j)%nat).
Proof.
  refine (conj _ (conj _ (conj _ _))); [reflexivity | reflexivity | reflexivity |].
  apply brown_increments_scaled; reflexivity.
Defined.

Lemma Qnum_zero_eq (x : Q) : Qnum x = 0%Z -> x == 0.
Proof. intros H; unfold Qeq; simpl; rewrite H; reflexivity. Qed.

Lemma Qnum_zero_plus (a b : Q) :
  Qnum a = 0%Z -> Qnum b = 0%Z -> Qnum (a + b) = 0%Z.
Proof. intros Ha Hb; simpl; rewrite Ha, Hb; reflexivity. Qed.

Lemma Qnum_zero_mult (a b : Q) : Qnum a = 0%Z -> Qnum (a * b) = 0%Z.
Proof. intros Ha; simpl; rewrite Ha; reflexivity. Qed.

Lemma np_sqrt_zero_div (x : Q) : Qnum (np_sqrt (0 / x)) = 0%Z.
Proof. reflexivity. Qed.

Lemma cumsum_from_zero (acc : Q) (l : list Q) :
  Qnum acc = 0%Z -> Forall (fun x => Qnum x = 0%Z) l ->
  Forall (fun x => Qnum x = 0%Z) (cumsum_from acc l).
Proof.
  intros Hacc Hl; revert acc Hacc.
  induction Hl as [|x t Hx _ IH]; intros acc Hacc; simpl; constructor.
  - now apply Qnum_zero_plus.
  - apply IH; now apply Qnum_zero_plus.
Qed.

Lemma cumsum_zero (l : list Q) :
  Forall (fun x => Qnum x = 0%Z) l -> Forall (fun x => Qnum x = 0%Z) (cumsum l).
Proof.
  intros Hl; destruct Hl as [|x t Hx Ht]; simpl; constructor; auto.
  now apply cumsum_from_zero.
Qed.

Lemma draws_T0_zero (N : Z) (rows cols : nat) (g : rng) :
  Forall (Forall (fun x => Qnum x = 0%Z)) (draws (np_sqrt (0 / inject_Z N)) rows cols g).
Proof.
  unfold draws; apply Forall_map, Forall_forall; intros i _.
  apply Forall_map, Forall_forall; intros j _.
  apply Qnum_zero_plus; [reflexivity|].
  apply Qnum_zero_mult, np_sqrt_zero_div.
Qed.

Lemma Forall_Qnum_zero (A : matrix) :
  Forall (Forall (fun x => Qnum x = 0%Z)) A -> Forall (Forall (fun x => x == 0)) A.
Proof.
  intros HA; eapply Forall_impl; [|exact HA]; intros r Hr.
  eapply Forall_impl; [|exact Hr]; intros x; apply Qnum_zero_eq.
Qed.

(** C7: two calls with the same arguments fed the same stream of random
    draws (e.g. after [random.seed] with the same seed) return the same
    [W] and [dW], or raise the same exception. *)
Theorem brown_deterministic (T : Q) (N N_ens : Z) (g1 g2 : rng) :
  (forall i, g1 i = g2 i) ->
  fst (brown T N N_ens g1) = fst (brown T N N_ens g2).
Proof.
  intros Hg.
  unfold brown, brown_with.
  destruct (N =? 0)%Z; [reflexivity|].
  unfold bind at 1, np_normal.
  destruct ((N_ens <? 0)%Z || (N <? 0)%Z); [reflexivity|].
  match goal with
  | |- context [map ?f (seq 0 (Z.to_nat N_ens))] =>
      replace (map f (seq 0 (Z.to_nat N_ens))) with
        (map (fun i => map (fun j => 0 + np_sqrt (T / inject_Z N) * g2 (i * Z.to_nat N + j)%nat)
                           (seq 0 (Z.to_nat N)))
             (seq 0 (Z.to_nat N_ens)))
        by (apply map_ext; intros i; apply map_ext; intros j; now rewrite Hg)
  end.
  unfold bind, set_cols_from1, ret, raise.
  destruct (_ && _); reflexivity.
Qed.

Lemma brown_deterministic_witness :
  (forall i, g_seq i = g_seq i) /\
  fst (brown 1 3 2 g_seq) = fst (brown 1 3 2 g_seq).
Proof.
  split; [intros i; reflexivity|].
  apply brown_deterministic; intros i; reflexivity.
Defined.

(** C8: a call [brown(T, N)] without [N_ens] is [brown(T, N, 1)]; for
    [N > 0] it returns [W] of shape [(1, N+1)] and [dW] of shape [(1, N)]. *)
Theorem brown_default_ensemble (T : Q) (N : Z) (g : rng) :
  (0 < N)%Z ->
  brown_call T N None g = brown T N 1 g /\
  exists W dW g', brown_call T N None g = (Ok (W, dW), g') /\
    has_shape W 1 (N + 1) /\ has_shape dW 1 N.
Proof.
  intros HN; split; [reflexivity|].
  do 3 eexists; split; [unfold brown_call; apply brown_eq; lia|].
  split; [apply shape_W | apply shape_dW]; lia.
Qed.

Lemma brown_default_ensemble_witness :
  (0 < 5)%Z /\
  brown_call 1 5 None g_seq = brown 1 5 1 g_seq /\
  exists W dW g', brown_call 1 5 None g_seq = (Ok (W, dW), g') /\
    has_shape W 1 (5 + 1) /\ has_shape dW 1 5.
Proof.
  split; [reflexivity|].
  apply brown_default_ensemble; reflexivity.
Defined.

(** C9: with [T = 0] and positive [N] and [N_ens], [brown] returns
    normally, and every entry of [dW] (shape [(N_ens, N)]) and of [W]
    (shape [(N_ens, N+1)]) is zero. *)
Theorem brown_T_zero (N N_ens : Z) (g : rng) :
  (0 < N)%Z -> (0 < N_ens)%Z ->
  exists W dW g', brown 0 N N_ens g = (Ok (W, dW), g') /\
    has_shape W N_ens (N + 1) /\ has_shape dW N_ens N /\
    Forall (Forall (fun x => x == 0)) W /\ Forall (Forall (fun x => x == 0)) dW.
Proof.
  intros HN HNe.
  do 3 eexists; split; [apply brown_eq; lia|].
  split; [apply shape_W; lia|].
  split; [apply shape_dW; lia|].
  pose proof (draws_T0_zero N (Z.to_nat N_ens) (Z.to_nat N) g) as HD.
  split; apply Forall_Qnum_zero; [|exact HD].
  apply Forall_map; unfold cumsum_axis1; apply Forall_map.
  eapply Forall_impl; [|exact HD]; intros r Hr.
  constructor; [reflexivity|]; now apply cumsum_zero.
Qed.

Lemma brown_T_zero_witness :
  (0 < 3)%Z /\ (0 < 2)%Z /\
  exists W dW g', brown 0 3 2 g_seq = (Ok (W, dW), g') /\
    has_shape W 2 (3 + 1) /\ has_shape dW 2 3 /\
    Forall (Forall (fun x => x == 0)) W /\ Forall (Forall (fun x => x == 0)) dW.
Proof.
  split; [reflexivity|]; split; [reflexivity|].
  apply brown_T_zero; reflexivity.
Defined.

(** C10: with [N_ens = 0], [T > 0] and [N > 0], [brown] returns normally
    the empty matrices [W] of shape [(0, N+1)] and [dW] of shape [(0, N)]. *)
Theorem brown_empty_ensemble (T : Q) (N : Z) (g : rng) :
  0 < T -> (0 < N)%Z ->
  exists W dW g', brown T N 0 g = (Ok (W, dW), g') /\
    W = [] /\ dW = [] /\ has_shape W 0 (N + 1) /\ has_shape dW 0 N.
Proof.
  intros _ HN.
  do 3 eexists; split; [apply brown_eq; lia|].
  repeat split; constructor.
Qed.

Lemma brown_empty_ensemble_witness :
  0 < 1 /\ (0 < 7)%Z /\
  exists W dW g', brown 1 7 0 g_seq = (Ok (W, dW), g') /\
    W = [] /\ dW = [] /\ has_shape W 0 (7 + 1) /\ has_shape dW 0 7.
Proof.
  split; [reflexivity|]; split; [reflexivity|].
  apply brown_empty_ensemble; reflexivity.
Defined.


(** ** Further properties of [brown] and of the driver *)



Lemma last_cumsum_from (t : list Q) (acc : Q) :
  last (acc :: cumsum_from acc t) 0 == acc + qsum t.
Proof.
  revert acc; induction t as [|y t IH]; intros acc; simpl.
  - ring.
  - change (last ((acc + y) :: cumsum_from (acc + y) t) 0 == acc + (y + qsum t)).
    rewrite IH; ring.
Qed.

(** The last entry of a row of [W] is the sum of the row of [dW]. *)
Lemma last_row_sum (r : list Q) : last (0 :: cumsum r) 0 == qsum r.
Proof.
  destruct r as [|x t]; simpl; [reflexivity|].
  change (last (x :: cumsum_from x t) 0 == x + qsum t).
  apply last_cumsum_from.
Qed.

Lemma map_seq_shift {A : Type} (f : nat -> A) (a b c : nat) :
  map f (seq (a + c) b) = map (fun i => f (a + i)%nat) (seq c b).
Proof.
  revert c; induction b as [|b IH]; intros c; simpl; [reflexivity|].
  f_equal; replace (S (a + c)) with (a + S c)%nat by lia; apply IH.
Qed.

(** [a + b] rows of draws are [a] rows followed by [b] rows drawn after
    them. *)
Lemma draws_app (s : Q) (a b cols : nat) (g : rng) :
  draws s (a + b) cols g = draws s a cols g ++ draws s b cols (advance g (a * cols)).
Proof.
  unfold draws; rewrite seq_app, map_app; f_equal.
  replace (seq (0 + a) b) with (seq (a + 0) b) by (f_equal; lia).
  rewrite map_seq_shift.
  apply map_ext; intros i; apply map_ext; intros j.
  unfold advance; do 3 f_equal; nia.
Qed.

Lemma plot_rows_ok (t : list Q) (rows : matrix) :
  Forall (fun r => length r = length t) rows ->
  plot_rows t rows = ret (map (fun r => (t, r)) rows).
Proof.
  induction 1 as [|r rs Hr _ IH]; simpl; [reflexivity|].
  unfold plt_plot; rewrite Hr, Nat.eqb_refl, IH; reflexivity.
Qed.

Lemma np_linspace_length (start stop : Q) (num : Z) :
  length (np_linspace start stop num) = Z.to_nat num.
Proof.
  unfold np_linspace.
  destruct (Z.to_nat num) as [|[|n]]; simpl; [reflexivity | reflexivity|].
  rewrite length_app, length_map, length_seq; simpl; lia.
Qed.

Lemma qsum_map_Qeq {A : Type} (f h : A -> Q) (l : list A) :
  (forall x, In x l -> f x == h x) -> qsum (map f l) == qsum (map h l).
Proof.
  induction l as [|x l IH]; intros Hfh; simpl; [reflexivity|].
  rewrite (Hfh x (or_introl eq_refl)), IH; [reflexivity|].
  intros y Hy; apply Hfh; now right.
Qed.

Lemma Qsquare_nonneg (x : Q) : 0 <= x * x.
Proof. unfold Qle; simpl; nia. Qed.

Lemma qsum_squares_nonneg (l : list Q) : 0 <= qsum (map (fun x => x * x) l).
Proof.
  induction l as [|x l IH]; simpl; [discriminate|].
  rewrite <- (Qplus_0_l 0).
  apply Qplus_le_compat; [apply Qsquare_nonneg | exact IH].
Qed.



(** One call with [n1 + n2] ensemble members returns the rows of a call
    with [n1] members followed by the rows of a call with [n2] members
    made right after it, and leaves the random state where the two calls
    leave it. *)
Theorem brown_ensemble_split (T : Q) (N n1 n2 : Z) (g : rng) :
  (0 < N)%Z -> (0 <= n1)%Z -> (0 <= n2)%Z ->
  exists W1 dW1 g1 W2 dW2 g2 W dW g',
    brown T N n1 g = (Ok (W1, dW1), g1) /\
    brown T N n2 g1 = (Ok (W2, dW2), g2) /\
    brown T N (n1 + n2) g = (Ok (W, dW), g') /\
    W = W1 ++ W2 /\ dW = dW1 ++ dW2 /\ (forall i, g' i = g2 i).
Proof.
  intros HN H1 H2.
  do 9 eexists.
  split; [apply brown_eq; lia|].
  split; [apply brown_eq; lia|].
  split; [apply brown_eq; lia|].
  rewrite Z2Nat.inj_add by lia.
  rewrite draws_app.
  split; [unfold cumsum_axis1; now rewrite !map_app|].
  split; [reflexivity|].
  intros i; unfold advance; f_equal; nia.
Qed.

Lemma brown_ensemble_split_witness :
  (0 < 3)%Z /\ (0 <= 1)%Z /\ (0 <= 2)%Z /\
  exists W1 dW1 g1 W2 dW2 g2 W dW g',
    brown 1 3 1 g_seq = (Ok (W1, dW1), g1) /\
    brown 1 3 2 g1 = (Ok (W2, dW2), g2) /\
    brown 1 3 (1 + 2) g_seq = (Ok (W, dW), g') /\
    W = W1 ++ W2 /\ dW = dW1 ++ dW2 /\ (forall i, g' i = g2 i).
Proof.
  refine (conj _ (conj _ (conj _ _))); [reflexivity | discriminate | discriminate |].
  apply brown_ensemble_split; [reflexivity | discriminate | discriminate].
Defined.

(** Row [k] of [W] and of [dW] depends only on the draws at positions
    [k*N .. k*N + N - 1] of the random stream: two streams that agree
    there give the same row [k]. *)
Theorem brown_row_locality (T : Q) (N N_ens : Z) (g1 g2 : rng) (k : nat) :
  (0 < N)%Z -> (0 <= N_ens)%Z -> (k < Z.to_nat N_ens)%nat ->
  (forall i, (k * Z.to_nat N <= i < k * Z.to_nat N + Z.to_nat N)%nat -> g1 i = g2 i) ->
  exists W1 dW1 g1' W2 dW2 g2',
    brown T N N_ens g1 = (Ok (W1, dW1), g1') /\
    brown T N N_ens g2 = (Ok (W2, dW2), g2') /\
    nth_error W1 k = nth_error W2 k /\ nth_error dW1 k = nth_error dW2 k.
Proof.
  intros HN HNe Hk Hg.
  do 6 eexists.
  split; [apply brown_eq; lia|].
  split; [apply brown_eq; lia|].
  assert (Hrow : nth_error (draws (np_sqrt (T / inject_Z N)) (Z.to_nat N_ens) (Z.to_nat N) g1) k =
                 nth_error (draws (np_sqrt (T / inject_Z N)) (Z.to_nat N_ens) (Z.to_nat N) g2) k).
  { rewrite !draws_row by exact Hk; f_equal.
    apply map_ext_in; intros j Hj; apply in_seq in Hj.
    rewrite Hg by lia; reflexivity. }
  unfold cumsum_axis1; rewrite !nth_error_map, Hrow; split; reflexivity.
Qed.

Lemma brown_row_locality_witness :
  (0 < 3)%Z /\ (0 <= 2)%Z /\ (1 < Z.to_nat 2)%nat /\
  (forall i, (1 * Z.to_nat 3 <= i < 1 * Z.to_nat 3 + Z.to_nat 3)%nat ->
             g_seq i = (fun i => if (i <? 3)%nat then 0 else g_seq i) i) /\
  exists W1 dW1 g1' W2 dW2 g2',
    brown 1 3 2 g_seq = (Ok (W1, dW1), g1') /\
    brown 1 3 2 (fun i => if (i <? 3)%nat then 0 else g_seq i) = (Ok (W2, dW2), g2') /\
    nth_error W1 1 = nth_error W2 1 /\ nth_error dW1 1 = nth_error dW2 1.
Proof.
  assert (H : forall i, (1 * Z.to_nat 3 <= i < 1 * Z.to_nat 3 + Z.to_nat 3)%nat ->
              g_seq i = (fun i => if (i <? 3)%nat then 0 else g_seq i) i).
  { intros i Hi; simpl in Hi |- *.
    destruct (Nat.ltb_spec i 3); [lia | reflexivity]. }
  refine (conj _ (conj _ (conj _ (conj H _)))); [reflexivity | discriminate | simpl; lia |].
  apply brown_row_locality; [reflexivity | discriminate | simpl; lia | exact H].
Defined.

(** [np.linspace(start, stop, n + 1)] for [n >= 1] has [n + 1] entries,
    and entry [i] is [start + i * (stop - start) / n]; in particular the
    first is [start] and the last is [stop]. *)
Lemma np_linspace_entries (start stop : Q) (n : Z) :
  (1 <= n)%Z ->
  length (np_linspace start stop (n + 1)) = S (Z.to_nat n) /\
  forall i, (i <= Z.to_nat n)%nat ->
    exists x, nth_error (np_linspace start stop (n + 1)) i = Some x /\
              x == start + inject_Z (Z.of_nat i) * (stop - start) / inject_Z n.
Proof.
  intros Hn.
  split; [rewrite np_linspace_length; lia|].
  intros i Hi.
  assert (Hnz : ~ inject_Z n == 0) by (unfold Qeq; simpl; lia).
  destruct (Z.to_nat n) as [|m] eqn:Hm; [lia|].
  assert (Hmn : Z.of_nat (S m) = n) by lia.
  unfold np_linspace.
  replace (Z.to_nat (n + 1)) with (S (S m)) by lia.
  rewrite Hmn.
  destruct (Nat.lt_ge_cases i (S m)) as [Hlt|Hge].
  - rewrite nth_error_app1 by (rewrite length_map, length_seq; exact Hlt).
    rewrite nth_error_map, nth_error_seq.
    destruct (Nat.ltb_spec i (S m)); [|lia].
    eexists; split; [reflexivity|].
    simpl Nat.add; field; exact Hnz.
  - rewrite nth_error_app2 by (rewrite length_map, length_seq; exact Hge).
    rewrite length_map, length_seq.
    replace (i - S m)%nat with O by lia.
    eexists; split; [reflexivity|].
    replace i with (S m) by lia; rewrite Hmn.
    field; exact Hnz.
Qed.

Lemma W_rows_length (s : Q) (N N_ens : Z) (g : rng) :
  (0 < N)%Z ->
  Forall (fun r => length r = length (np_linspace 0 1 (N + 1)))
         (map (cons 0) (cumsum_axis1 (draws s (Z.to_nat N_ens) (Z.to_nat N) g))).
Proof.
  intros HN; rewrite np_linspace_length.
  apply Forall_map.
  eapply Forall_impl; [|apply (cumsum_axis1_rows _ (Z.to_nat N)), draws_rows].
  intros r Hr; simpl; rewrite Hr; lia.
Qed.

(** The driver never fails: for [N > 0] and [N_ens >= 0] it plots exactly
    one curve per row of [W], each the time grid of [N + 1] points against
    that row, so no [plt.plot] call sees vectors of different lengths. *)
Theorem main_body_plots (T : Q) (N N_ens : Z) (g : rng) :
  (0 < N)%Z -> (0 <= N_ens)%Z ->
  exists W dW g1 curves v g',
    brown T N N_ens g = (Ok (W, dW), g1) /\
    main_body T N N_ens g = (Ok (curves, v), g') /\
    curves = map (fun r => (np_linspace 0 1 (N + 1), r)) W /\
    length (np_linspace 0 1 (N + 1)) = S (Z.to_nat N) /\
    Forall (fun r => length r = S (Z.to_nat N)) W.
Proof.
  intros HN HNe.
  pose proof (W_rows_length (np_sqrt (T / inject_Z N)) N N_ens g HN) as HW.
  assert (Ht : length (np_linspace 0 1 (N + 1)) = S (Z.to_nat N))
    by (rewrite np_linspace_length; lia).
  do 6 eexists.
  split; [apply brown_eq; lia|].
  split.
  { unfold main_body, bind at 1.
    rewrite (brown_eq T N N_ens g HN HNe); cbv beta iota.
    rewrite plot_rows_ok by exact HW.
    reflexivity. }
  split; [reflexivity|].
  split; [exact Ht|].
  rewrite <- Ht; exact HW.
Qed.

Lemma main_body_plots_witness :
  (0 < 500)%Z /\ (0 <= 100)%Z /\
  exists W dW g1 curves v g',
    brown 1 500 100 g_seq = (Ok (W, dW), g1) /\
    main_body 1 500 100 g_seq = (Ok (curves, v), g') /\
    curves = map (fun r => (np_linspace 0 1 (500 + 1), r)) W /\
    length (np_linspace 0 1 (500 + 1)) = S (Z.to_nat 500) /\
    Forall (fun r => length r = S (Z.to_nat 500)) W.
Proof.
  split; [reflexivity|]; split; [discriminate|].
  apply main_body_plots; [reflexivity | discriminate].
Defined.

(** For [N > 0] and [N_ens > 0] the printed value is the mean over the
    ensemble of the squared row sums of [dW] (the squared terminal values
    of the paths), and it is non-negative. *)
Theorem main_body_printed (T : Q) (N N_ens : Z) (g : rng) :
  0 <= T -> (0 < N)%Z -> (0 < N_ens)%Z ->
  exists W dW g1 curves v g',
    brown T N N_ens g = (Ok (W, dW), g1) /\
    main_body T N N_ens g = (Ok (curves, Some v), g') /\
    v == qsum (map (fun r => qsum r * qsum r) dW) / inject_Z N_ens /\
    0 <= v.
Proof.
  intros _ HN HNe.
  pose proof (W_rows_length (np_sqrt (T / inject_Z N)) N N_ens g HN) as HW.
  set (D := draws (np_sqrt (T / inject_Z N)) (Z.to_nat N_ens) (Z.to_nat N) g) in *.
  assert (Hv : qsum (map (fun row => last row 0 * last row 0) (map (cons 0) (cumsum_axis1 D)))
               == qsum (map (fun r => qsum r * qsum r) D)).
  { unfold cumsum_axis1; rewrite !map_map.
    apply qsum_map_Qeq; intros r _; rewrite last_row_sum; reflexivity. }
  do 6 eexists.
  split; [apply brown_eq; lia|].
  split.
  { unfold main_body, bind at 1.
    rewrite (brown_eq T N N_ens g HN); [|lia]; cbv beta iota.
    rewrite plot_rows_ok by exact HW.
    unfold terminal_mean_square.
    replace (N_ens =? 0)%Z with false by (symmetry; apply Z.eqb_neq; lia).
    reflexivity. }
  fold D.
  split; [rewrite Hv; reflexivity|].
  rewrite Hv.
  apply Qle_shift_div_l; [unfold Qlt; simpl; lia|].
  rewrite Qmult_0_l.
  replace (map (fun r => qsum r * qsum r) D) with (map (fun x => x * x) (map qsum D))
    by (now rewrite map_map).
  apply qsum_squares_nonneg.
Qed.

Lemma main_body_printed_witness :
  0 <= 1 /\ (0 < 4)%Z /\ (0 < 2)%Z /\
  exists W dW g1 curves v g',
    brown 1 4 2 g_seq = (Ok (W, dW), g1) /\
    main_body 1 4 2 g_seq = (Ok (curves, Some v), g') /\
    v == qsum (map (fun r => qsum r * qsum r) dW) / inject_Z 2 /\
    0 <= v.
Proof.
  split; [discriminate|]; split; [reflexivity|]; split; [reflexivity|].
  apply main_body_printed; [discriminate | reflexivity | reflexivity].
Defined.

(** A successful call consumes exactly [N_ens * N] draws: the random
    state afterwards is the input stream advanced by [N_ens * N]. *)
Theorem brown_draw_count (T : Q) (N N_ens : Z) (g : rng) :
  (0 < N)%Z -> (0 <= N_ens)%Z ->
  exists W dW g', brown T N N_ens g = (Ok (W, dW), g') /\
    forall i, g' i = g (Z.to_nat (N_ens * N) + i)%nat.
Proof.
  intros HN HNe.
  do 3 eexists; split; [apply brown_eq; lia|].
  intros i; unfold advance; rewrite Z2Nat.inj_mul by lia; reflexivity.
Qed.

Lemma brown_draw_count_witness :
  (0 < 3)%Z /\ (0 <= 2)%Z /\
  exists W dW g', brown 1 3 2 g_seq = (Ok (W, dW), g') /\
    forall i, g' i = g_seq (Z.to_nat (2 * 3) + i)%nat.
Proof.
  split; [reflexivity|]; split; [discriminate|].
  apply brown_draw_count; [reflexivity | discriminate].
Defined.

(** The driver plots [W[k, j]] at the abscissa [j / N] for every row [k]
    and every [j] in [0, N], whatever [T] is: the time grid is
    [np.linspace(0., 1., N+1)], not a grid over [[0, T]]. *)
Theorem main_body_time_grid (T : Q) (N N_ens : Z) (g : rng) :
  (0 < N)%Z -> (0 <= N_ens)%Z ->
  exists W dW g1 curves v g',
    brown T N N_ens g = (Ok (W, dW), g1) /\
    main_body T N N_ens g = (Ok (curves, v), g') /\
    forall k j, (k < Z.to_nat N_ens)%nat -> (j <= Z.to_nat N)%nat ->
      exists t r x, nth_error curves k = Some (t, r) /\
        nth_error t j = Some x /\ x == inject_Z (Z.of_nat j) / inject_Z N /\
        nth_error r j = at_ W k j.
Proof.
  intros HN HNe.
  pose proof (W_rows_length (np_sqrt (T / inject_Z N)) N N_ens g HN) as HW.
  do 6 eexists.
  split; [apply brown_eq; lia|].
  split.
  { unfold main_body, bind at 1.
    rewrite (brown_eq T N N_ens g HN HNe); cbv beta iota.
    rewrite plot_rows_ok by exact HW.
    reflexivity. }
  intros k j Hk Hj.
  pose proof (draws_row (np_sqrt (T / inject_Z N)) _ (Z.to_nat N) g k Hk) as Hrow.
  destruct (np_linspace_entries 0 1 N ltac:(lia)) as [_ Ht].
  destruct (Ht j Hj) as (x & Hx & Hxv).
  exists (np_linspace 0 1 (N + 1)), (0 :: cumsum (map (fun j => 0 + np_sqrt (T / inject_Z N) * g (k * Z.to_nat N + j)%nat) (seq 0 (Z.to_nat N)))), x.
  split.
  { unfold cumsum_axis1; rewrite !nth_error_map, Hrow; reflexivity. }
  split; [exact Hx|].
  split.
  { rewrite Hxv.
    assert (Hnz : ~ inject_Z N == 0) by (unfold Qeq; simpl; lia).
    field; exact Hnz. }
  rewrite (at_W _ _ _ _ Hrow); reflexivity.
Qed.

Lemma main_body_time_grid_witness :
  (0 < 4)%Z /\ (0 <= 2)%Z /\
  exists W dW g1 curves v g',
    brown 3 4 2 g_seq = (Ok (W, dW), g1) /\
    main_body 3 4 2 g_seq = (Ok (curves, v), g') /\
    forall k j, (k < Z.to_nat 2)%nat -> (j <= Z.to_nat 4)%nat ->
      exists t r x, nth_error curves k = Some (t, r) /\
        nth_error t j = Some x /\ x == inject_Z (Z.of_nat j) / inject_Z 4 /\
        nth_error r j = at_ W k j.
Proof.
  split; [reflexivity|]; split; [discriminate|].
  apply main_body_time_grid; [reflexivity | discriminate].
Defined.
